(** * A shallow embedding of the nocks map viewer (src/src/main.rs)

    The program loads a "mup" map file into one GPU mesh per sector and then
    runs a glfw/wgpu frame loop: poll window events into a [GameState], move
    a free-flying [Camera3D], upload the view matrix and draw every mesh.

    Modelling conventions.
    - [f32] arithmetic is modelled by real arithmetic ([R]); rounding is not
      modelled, and the casts [as f32] are the identity.
    - GPU buffers are modelled by the data they are created from.
    - The external collaborators (the file system, [mime::Map::deserialize])
      are Section variables, so every statement about [load_map] holds for
      any file system and any deserializer.
    - Code that can panic ([unwrap], [try_into().unwrap()], indexing) returns
      an [Outcome]: [Returned v] or [Panicked]. *)

From Stdlib Require Import Reals Lra Lia List ZArith NArith Bool.
Import ListNotations.
Open Scope R_scope.

(** ** Vectors and matrices (glam) *)

Record Vec3 := mkVec3 { x : R; y : R; z : R }.
Record Vec4 := mkVec4 { v4x : R; v4y : R; v4z : R; v4w : R }.

(** [Mat4] is stored by columns, as glam does. *)
Record Mat4 := mkMat4 { x_axis : Vec4; y_axis : Vec4; z_axis : Vec4; w_axis : Vec4 }.

Definition vadd (a b : Vec3) : Vec3 := mkVec3 (x a + x b) (y a + y b) (z a + z b).
Definition vsub (a b : Vec3) : Vec3 := mkVec3 (x a - x b) (y a - y b) (z a - z b).
Definition vscale (s : R) (a : Vec3) : Vec3 := mkVec3 (s * x a) (s * y a) (s * z a).
Definition dot (a b : Vec3) : R := x a * x b + y a * y b + z a * z b.
Definition cross (a b : Vec3) : Vec3 :=
  mkVec3 (y a * z b - z a * y b) (z a * x b - x a * z b) (x a * y b - y a * x b).
Definition length (a : Vec3) : R := sqrt (dot a a).
(** glam: [self.mul(self.length_recip())]. *)
Definition normalize (a : Vec3) : Vec3 := vscale (1 / length a) a.

(** [f32::to_radians]. *)
Definition to_radians (d : R) : R := d * (PI / 180).

(** glam [Mat4::look_to_lh] / [look_at_lh]. *)
Definition look_to_lh (eye dir up : Vec3) : Mat4 :=
  let f := normalize dir in
  let s := normalize (cross up f) in
  let u := cross f s in
  mkMat4 (mkVec4 (x s) (x u) (x f) 0)
         (mkVec4 (y s) (y u) (y f) 0)
         (mkVec4 (z s) (z u) (z f) 0)
         (mkVec4 (- dot s eye) (- dot u eye) (- dot f eye) 1).
Definition look_at_lh (eye center up : Vec3) : Mat4 := look_to_lh eye (vsub center eye) up.

(** glam [Mat4::perspective_lh]. *)
Definition perspective_lh (fov_y_radians aspect_ratio z_near z_far : R) : Mat4 :=
  let sin_fov := sin (0.5 * fov_y_radians) in
  let cos_fov := cos (0.5 * fov_y_radians) in
  let h := cos_fov / sin_fov in
  let w := h / aspect_ratio in
  let r := z_far / (z_far - z_near) in
  mkMat4 (mkVec4 w 0 0 0) (mkVec4 0 h 0 0) (mkVec4 0 0 r 1) (mkVec4 0 0 (- r * z_near) 0).

Definition IDENTITY : Mat4 :=
  mkMat4 (mkVec4 1 0 0 0) (mkVec4 0 1 0 0) (mkVec4 0 0 1 0) (mkVec4 0 0 0 1).

Definition from_scale (s : Vec3) : Mat4 :=
  mkMat4 (mkVec4 (x s) 0 0 0) (mkVec4 0 (y s) 0 0) (mkVec4 0 0 (z s) 0) (mkVec4 0 0 0 1).

Definition vec4_list (v : Vec4) : list R := [v4x v; v4y v; v4z v; v4w v].

(** [Mat4::write_cols_to_slice] into a [[f32; 16]]. *)
Definition write_cols_to_slice (m : Mat4) : list R :=
  vec4_list (x_axis m) ++ vec4_list (y_axis m) ++ vec4_list (z_axis m) ++ vec4_list (w_axis m).

(** ** [UniformBuffer] *)

Record UniformBuffer := mkUniformBuffer {
  projection_matrix : list R;
  view_matrix : list R;
  model_matrix : list R }.

Definition UniformBuffer_new (projection view model : Mat4) : UniformBuffer :=
  mkUniformBuffer (write_cols_to_slice projection) (write_cols_to_slice view)
                  (write_cols_to_slice model).

Definition update_view (u : UniformBuffer) (view : Mat4) : UniformBuffer :=
  mkUniformBuffer (projection_matrix u) (write_cols_to_slice view) (model_matrix u).

(** ** [Camera3D] *)

Record Camera3D := mkCamera3D { pos : Vec3; front : Vec3; cam_up : Vec3 }.

Definition Camera3D_new (p f : Vec3) : Camera3D := mkCamera3D p f (mkVec3 0 1 0).

Definition create_view_matrix (c : Camera3D) : Mat4 :=
  look_at_lh (pos c) (vadd (pos c) (front c)) (cam_up c).

(** ** [GameState] *)

Record GameState := mkGameState {
  up : bool; down : bool; left : bool; right : bool;
  first_mouse : bool; last_mouse_x : R; last_mouse_y : R;
  yaw : R; pitch : R }.

Definition GameState_new : GameState :=
  mkGameState false false false false true 0 0 90 0.

(** ** Window events (glfw) *)

Inductive Key := Escape | KeyW | KeyS | KeyA | KeyD | OtherKey (code : Z).
Inductive Action := Press | Release | Repeat.

Inductive WindowEvent :=
| KeyEvent (k : Key) (scancode : Z) (a : Action) (mods : N)
| CursorPos (mx my : R)
| Close
| OtherEvent (tag : N).

Definition SENSITIVITY : R := 1 / 10.

(** [handle_window_event]: the window is reduced to its should-close flag. *)
Definition handle_window_event (should_close : bool) (gs : GameState) (ev : WindowEvent)
  : bool * GameState :=
  match ev with
  | KeyEvent Escape _ Press _ => (true, gs)
  | KeyEvent k _ Press _ =>
      match k with
      | KeyW => (should_close, {| up := true; down := down gs; left := left gs; right := right gs;
                   first_mouse := first_mouse gs; last_mouse_x := last_mouse_x gs;
                   last_mouse_y := last_mouse_y gs; yaw := yaw gs; pitch := pitch gs |})
      | KeyS => (should_close, {| up := up gs; down := true; left := left gs; right := right gs;
                   first_mouse := first_mouse gs; last_mouse_x := last_mouse_x gs;
                   last_mouse_y := last_mouse_y gs; yaw := yaw gs; pitch := pitch gs |})
      | KeyA => (should_close, {| up := up gs; down := down gs; left := true; right := right gs;
                   first_mouse := first_mouse gs; last_mouse_x := last_mouse_x gs;
                   last_mouse_y := last_mouse_y gs; yaw := yaw gs; pitch := pitch gs |})
      | KeyD => (should_close, {| up := up gs; down := down gs; left := left gs; right := true;
                   first_mouse := first_mouse gs; last_mouse_x := last_mouse_x gs;
                   last_mouse_y := last_mouse_y gs; yaw := yaw gs; pitch := pitch gs |})
      | _ => (should_close, gs)
      end
  | KeyEvent k _ Release _ =>
      match k with
      | KeyW => (should_close, {| up := false; down := down gs; left := left gs; right := right gs;
                   first_mouse := first_mouse gs; last_mouse_x := last_mouse_x gs;
                   last_mouse_y := last_mouse_y gs; yaw := yaw gs; pitch := pitch gs |})
      | KeyS => (should_close, {| up := up gs; down := false; left := left gs; right := right gs;
                   first_mouse := first_mouse gs; last_mouse_x := last_mouse_x gs;
                   last_mouse_y := last_mouse_y gs; yaw := yaw gs; pitch := pitch gs |})
      | KeyA => (should_close, {| up := up gs; down := down gs; left := false; right := right gs;
                   first_mouse := first_mouse gs; last_mouse_x := last_mouse_x gs;
                   last_mouse_y := last_mouse_y gs; yaw := yaw gs; pitch := pitch gs |})
      | KeyD => (should_close, {| up := up gs; down := down gs; left := left gs; right := false;
                   first_mouse := first_mouse gs; last_mouse_x := last_mouse_x gs;
                   last_mouse_y := last_mouse_y gs; yaw := yaw gs; pitch := pitch gs |})
      | _ => (should_close, gs)
      end
  | CursorPos mx my =>
      (* if game_state.first_mouse { latch } *)
      let gs1 := if first_mouse gs
                 then {| up := up gs; down := down gs; left := left gs; right := right gs;
                         first_mouse := false; last_mouse_x := mx; last_mouse_y := my;
                         yaw := yaw gs; pitch := pitch gs |}
                 else gs in
      let x_offset := mx - last_mouse_x gs1 in
      let y_offset := last_mouse_y gs1 - my in
      let x_offset := x_offset * SENSITIVITY in
      let y_offset := y_offset * SENSITIVITY in
      (should_close,
       {| up := up gs1; down := down gs1; left := left gs1; right := right gs1;
          first_mouse := first_mouse gs1; last_mouse_x := mx; last_mouse_y := my;
          yaw := yaw gs1 - x_offset; pitch := pitch gs1 + y_offset |})
  | _ => (should_close, gs)
  end.

(** ** Map loading *)

(** A panic ([unwrap] on an error, out-of-range indexing) or a returned value. *)
Inductive Outcome (A : Type) := Returned (a : A) | Panicked.
Arguments Returned {A} a.
Arguments Panicked {A}.

Definition obind {A B} (o : Outcome A) (k : A -> Outcome B) : Outcome B :=
  match o with Returned a => k a | Panicked => Panicked end.
Notation "x <- c ;; k" := (obind c (fun x => k)) (at level 61, c at next level, right associativity).

(** The data [mime::Map::deserialize] yields: sectors with one vertex and one
    index buffer each. *)
Record MimeVertex := mkMimeVertex { mv_x : R; mv_y : R; mv_z : R; mv_color : R * R * R }.
Record MimeSector := mkMimeSector { vertex_buffer : list MimeVertex; index_buffer : list N }.
Record MimeMap := mkMimeMap { sectors : list MimeSector }.

Record Vertex := mkVertex { position : R * R * R; color : R * R * R }.

(** A GPU mesh, its buffers modelled by their contents. *)
Record Mesh := mkMesh { mesh_vertex_buffer : list Vertex; mesh_index_buffer : list N; index_count : N }.

Record Map := mkMap { meshes : list Mesh }.

(** [Mesh::from_data]: [index_count.try_into().unwrap()] into a [u32]. *)
Definition Mesh_from_data (vb : list Vertex) (ib : list N) : Outcome Mesh :=
  let n := N.of_nat (List.length ib) in
  if (n <? 2 ^ 32)%N then Returned (mkMesh vb ib n) else Panicked.

Definition vertex_of (v : MimeVertex) : Vertex :=
  let '(c0, c1, c2) := mv_color v in
  mkVertex (mv_x v, mv_y v, mv_z v) (c0, c1, c2).

(** The body of [for sector in &mime_map.sectors], pushing onto [meshes]. *)
Fixpoint build_meshes (ss : list MimeSector) : Outcome (list Mesh) :=
  match ss with
  | [] => Returned []
  | s :: rest =>
      m <- Mesh_from_data (List.map vertex_of (vertex_buffer s)) (index_buffer s) ;;
      ms <- build_meshes rest ;;
      Returned (m :: ms)
  end.

Section LoadMap.
(** The file system and the map deserializer, external to the program. *)
Variables (Path File : Type).
Variable File_open : Path -> option File.
Variable read_to_end : File -> option (list Byte.byte).
Variable deserialize : list Byte.byte -> option MimeMap.

(** [load_map]: [?] on the open and the read, [unwrap] on the
    deserialization, then [&mime_map.sectors[38]] before the loop. *)
Definition load_map (filename : Path) : Outcome (option Map) :=
  match File_open filename with
  | None => Returned None
  | Some file =>
    match read_to_end file with
    | None => Returned None
    | Some data =>
      match deserialize data with
      | None => Panicked
      | Some mime_map =>
        match nth_error (sectors mime_map) 38 with
        | None => Panicked
        | Some _ =>
          ms <- build_meshes (sectors mime_map) ;;
          Returned (Some (mkMap ms))
        end
      end
    end
  end.
End LoadMap.

(** ** The frame loop of [main] *)

(** What one [queue.submit] hands to the GPU: the uniform block written just
    before it and the index count of every [draw_indexed] call. *)
Record Submission := mkSubmission { sub_uniform : UniformBuffer; sub_draws : list N }.

Record Program := mkProgram {
  should_close : bool;
  game_state : GameState;
  camera : Camera3D;
  uniform_buffer : UniformBuffer;
  past : R;
  loaded_map : Map;
  submitted : list Submission }.

(** One event as [glfw.poll_events] and [flush_messages] deliver it: a
    window-close request sets the should-close flag inside glfw; every event
    is then passed to [handle_window_event]. *)
Definition poll_event (acc : bool * GameState) (ev : WindowEvent) : bool * GameState :=
  let sc := match ev with Close => true | _ => fst acc end in
  handle_window_event sc (snd acc) ev.

Definition handle_events (sc : bool) (gs : GameState) (evs : list WindowEvent) : bool * GameState :=
  fold_left poll_event evs (sc, gs).

Definition CAMERA_SPEED : R := 100.

(** [v * s] for a [Vec3] [v] and an [f32] [s]. *)
Definition vmuls (v : Vec3) (s : R) : Vec3 := mkVec3 (x v * s) (y v * s) (z v * s).

Definition set_pos (c : Camera3D) (p : Vec3) : Camera3D := mkCamera3D p (front c) (cam_up c).
Definition set_front (c : Camera3D) (f : Vec3) : Camera3D := mkCamera3D (pos c) f (cam_up c).

Definition move_camera (gs : GameState) (dt : R) (c0 : Camera3D) : Camera3D :=
  let c1 := if up gs then set_pos c0 (vadd (pos c0) (vmuls (vscale CAMERA_SPEED (front c0)) dt)) else c0 in
  let c2 := if down gs then set_pos c1 (vsub (pos c1) (vmuls (vscale CAMERA_SPEED (front c1)) dt)) else c1 in
  let c3 := if right gs
            then set_pos c2 (vsub (pos c2)
                   (vmuls (vscale CAMERA_SPEED (normalize (cross (front c2) (cam_up c2)))) dt))
            else c2 in
  let c4 := if left gs
            then set_pos c3 (vadd (pos c3)
                   (vmuls (vscale CAMERA_SPEED (normalize (cross (front c3) (cam_up c3)))) dt))
            else c3 in
  c4.

Definition direction (yaw pitch : R) : Vec3 :=
  mkVec3 (cos (to_radians yaw) * cos (to_radians pitch))
         (sin (to_radians pitch))
         (sin (to_radians yaw) * cos (to_radians pitch)).

(** One iteration of [while !window.should_close()], given the clock
    reading [now]; the surface-texture acquisition is assumed to succeed. *)
Definition frame (now : R) (evs : list WindowEvent) (p : Program) : Program :=
  let dt := now - past p in
  let '(sc, gs) := handle_events (should_close p) (game_state p) evs in
  let cam1 := move_camera gs dt (camera p) in
  let cam2 := set_front cam1 (normalize (direction (yaw gs) (pitch gs))) in
  let ub := update_view (uniform_buffer p) (create_view_matrix cam2) in
  let draws := List.map index_count (meshes (loaded_map p)) in
  mkProgram sc gs cam2 ub now (loaded_map p) (submitted p ++ [mkSubmission ub draws]).

(** The loop, run on a finite list of (clock reading, event batch) pairs. *)
Fixpoint main_loop (frames : list (R * list WindowEvent)) (p : Program) : Program :=
  match frames with
  | [] => p
  | (now, evs) :: rest => if should_close p then p else main_loop rest (frame now evs p)
  end.

Definition initial_projection (window_width window_height : Z) : Mat4 :=
  let aspect_ratio := IZR window_width / IZR window_height in
  perspective_lh (to_radians 90) aspect_ratio (1 / 10) 2000.

Definition initial_model : Mat4 := from_scale (mkVec3 1 1 1).

(** The state of [main] when the loop is entered. *)
Definition init_program (window_width window_height : Z) (m : Map) : Program :=
  mkProgram false GameState_new
    (Camera3D_new (mkVec3 1077 460 (-3600)) (mkVec3 0 0 1))
    (UniformBuffer_new (initial_projection window_width window_height) IDENTITY initial_model)
    0 m [].

(** * Properties *)

(** ** Mouse look *)

(** The game state after one event, the window flag left aside. *)
Definition after (gs : GameState) (ev : WindowEvent) : GameState :=
  snd (handle_window_event false gs ev).

Example mouse_second_sample_example :
  let gs := mkGameState false false false false false 0 0 90 0 in
  yaw (after gs (CursorPos 10 20)) = 89 /\ pitch (after gs (CursorPos 10 20)) = -2.
Proof. cbn. unfold SENSITIVITY. split; lra. Qed.

(** The handler never touches the should-close flag on a cursor event. *)
Lemma cursor_keeps_flag (sc : bool) (gs : GameState) (mx my : R) :
  fst (handle_window_event sc gs (CursorPos mx my)) = sc.
Proof. reflexivity. Qed.

(** C3, as the spec words it: after the first sample, yaw decreases and pitch
    increases by [(current - last) * SENSITIVITY], and [last] becomes
    [current]. It fails on the pitch: the code takes
    [y_offset = last_mouse_y - my]. *)
Lemma mouse_delta_sign_counterexample :
  ~ (forall (gs : GameState) (mx my : R), first_mouse gs = false ->
       yaw (after gs (CursorPos mx my)) = yaw gs - (mx - last_mouse_x gs) * SENSITIVITY /\
       pitch (after gs (CursorPos mx my)) = pitch gs + (my - last_mouse_y gs) * SENSITIVITY /\
       last_mouse_x (after gs (CursorPos mx my)) = mx /\
       last_mouse_y (after gs (CursorPos mx my)) = my).
Proof.
  intros H.
  destruct (H (mkGameState false false false false false 0 0 90 0) 0 10 eq_refl)
    as [_ [Hp _]].
  cbn in Hp. unfold SENSITIVITY in Hp. lra.
Qed.

(** C3 (amended): for every cursor sample after the first, with
    [delta = current - last], yaw decreases by [delta_x * SENSITIVITY], pitch
    decreases by [delta_y * SENSITIVITY] (the code adds
    [(last_y - current_y) * SENSITIVITY]), [last] becomes [current], and
    nothing else of the game state changes. *)
Theorem mouse_subsequent_sample (gs : GameState) (mx my : R)
  (Hfirst : first_mouse gs = false) :
  let gs' := after gs (CursorPos mx my) in
  yaw gs' = yaw gs - (mx - last_mouse_x gs) * SENSITIVITY /\
  pitch gs' = pitch gs - (my - last_mouse_y gs) * SENSITIVITY /\
  last_mouse_x gs' = mx /\ last_mouse_y gs' = my /\
  first_mouse gs' = false /\
  up gs' = up gs /\ down gs' = down gs /\ left gs' = left gs /\ right gs' = right gs.
Proof.
  destruct gs; cbn in Hfirst; subst; unfold after; cbn.
  repeat split; try reflexivity; lra.
Qed.

Lemma mouse_subsequent_sample_witness :
  first_mouse (mkGameState false false false false false 3 4 90 0) = false /\
  let gs := mkGameState false false false false false 3 4 90 0 in
  let gs' := after gs (CursorPos 13 24) in
  yaw gs' = yaw gs - (13 - last_mouse_x gs) * SENSITIVITY /\
  pitch gs' = pitch gs - (24 - last_mouse_y gs) * SENSITIVITY /\
  last_mouse_x gs' = 13 /\ last_mouse_y gs' = 24 /\
  first_mouse gs' = false /\
  up gs' = up gs /\ down gs' = down gs /\ left gs' = left gs /\ right gs' = right gs.
Proof.
  split; [reflexivity|].
  exact (mouse_subsequent_sample (mkGameState false false false false false 3 4 90 0)
           13 24 eq_refl).
Defined.

(** C4: on the first cursor sample ([first_mouse] set) yaw and pitch are
    unchanged; the sample is latched as [last_mouse_x]/[last_mouse_y],
    [first_mouse] is cleared, and the movement flags are untouched. *)
Theorem mouse_first_sample (gs : GameState) (mx my : R)
  (Hfirst : first_mouse gs = true) :
  let gs' := after gs (CursorPos mx my) in
  yaw gs' = yaw gs /\ pitch gs' = pitch gs /\
  last_mouse_x gs' = mx /\ last_mouse_y gs' = my /\ first_mouse gs' = false /\
  up gs' = up gs /\ down gs' = down gs /\ left gs' = left gs /\ right gs' = right gs.
Proof.
  destruct gs; cbn in Hfirst; subst; unfold after; cbn.
  repeat split; try reflexivity; lra.
Qed.

Lemma mouse_first_sample_witness :
  first_mouse GameState_new = true /\
  let gs' := after GameState_new (CursorPos 640 360) in
  yaw gs' = yaw GameState_new /\ pitch gs' = pitch GameState_new /\
  last_mouse_x gs' = 640 /\ last_mouse_y gs' = 360 /\ first_mouse gs' = false /\
  up gs' = up GameState_new /\ down gs' = down GameState_new /\
  left gs' = left GameState_new /\ right gs' = right GameState_new.
Proof.
  split; [reflexivity|].
  exact (mouse_first_sample GameState_new 640 360 eq_refl).
Defined.

(** ** Movement keys *)

Definition is_movement_key (k : Key) : bool :=
  match k with KeyW | KeyS | KeyA | KeyD => true | _ => false end.

(** The intent flag a movement key drives. *)
Definition flag_of (k : Key) (gs : GameState) : bool :=
  match k with
  | KeyW => up gs | KeyS => down gs | KeyA => left gs | KeyD => right gs
  | _ => false
  end.

Definition is_press (a : Action) : bool := match a with Press => true | _ => false end.

(** C9: a press of a movement key sets its flag, a release clears it, whatever
    the flag held before; the event changes no other flag, neither yaw, pitch,
    the mouse reference nor [first_mouse], nor the window's should-close flag. *)
Theorem movement_key_event (sc : bool) (gs : GameState) (k : Key) (scode : Z) (a : Action)
  (mods : N)
  (Hk : is_movement_key k = true) (Ha : a = Press \/ a = Release) :
  let r := handle_window_event sc gs (KeyEvent k scode a mods) in
  fst r = sc /\
  flag_of k (snd r) = is_press a /\
  (forall k', is_movement_key k' = true -> k' <> k -> flag_of k' (snd r) = flag_of k' gs) /\
  yaw (snd r) = yaw gs /\ pitch (snd r) = pitch gs /\
  first_mouse (snd r) = first_mouse gs /\
  last_mouse_x (snd r) = last_mouse_x gs /\ last_mouse_y (snd r) = last_mouse_y gs.
Proof.
  destruct k; try discriminate Hk;
    destruct Ha as [-> | ->]; cbn;
    (repeat split; try reflexivity);
    intros k' Hk' Hne; destruct k'; try discriminate Hk'; try congruence; reflexivity.
Qed.

Lemma movement_key_event_witness :
  is_movement_key KeyA = true /\ (Release = Press \/ Release = Release) /\
  let r := handle_window_event false GameState_new (KeyEvent KeyA 30 Release 0) in
  fst r = false /\
  flag_of KeyA (snd r) = is_press Release /\
  (forall k', is_movement_key k' = true -> k' <> KeyA ->
     flag_of k' (snd r) = flag_of k' GameState_new) /\
  yaw (snd r) = yaw GameState_new /\ pitch (snd r) = pitch GameState_new /\
  first_mouse (snd r) = first_mouse GameState_new /\
  last_mouse_x (snd r) = last_mouse_x GameState_new /\
  last_mouse_y (snd r) = last_mouse_y GameState_new.
Proof.
  split; [reflexivity|]. split; [right; reflexivity|].
  exact (movement_key_event false GameState_new KeyA 30 Release 0 eq_refl
           (or_intror eq_refl)).
Defined.

(** ** The mouse reference invariant *)

Definition is_cursor (ev : WindowEvent) : bool :=
  match ev with CursorPos _ _ => true | _ => false end.

Lemma poll_event_non_cursor (acc : bool * GameState) (ev : WindowEvent) :
  is_cursor ev = false ->
  first_mouse (snd (poll_event acc ev)) = first_mouse (snd acc) /\
  last_mouse_x (snd (poll_event acc ev)) = last_mouse_x (snd acc) /\
  last_mouse_y (snd (poll_event acc ev)) = last_mouse_y (snd acc).
Proof.
  destruct acc as [sc gs]; destruct ev as [k scode a mods | | | ]; intros H; try discriminate H;
    cbn; [ | auto | auto].
  destruct k, a; cbn; auto.
Qed.

Lemma handle_events_non_cursor (evs : list WindowEvent) (acc : bool * GameState) :
  forallb (fun ev => negb (is_cursor ev)) evs = true ->
  let r := fold_left poll_event evs acc in
  first_mouse (snd r) = first_mouse (snd acc) /\
  last_mouse_x (snd r) = last_mouse_x (snd acc) /\
  last_mouse_y (snd r) = last_mouse_y (snd acc).
Proof.
  revert acc; induction evs as [|ev evs IH]; intros acc H; cbn in *.
  - auto.
  - apply andb_true_iff in H as [Hev Hevs]. apply negb_true_iff in Hev.
    destruct (IH (poll_event acc ev) Hevs) as (H1 & H2 & H3).
    destruct (poll_event_non_cursor acc ev Hev) as (H4 & H5 & H6).
    rewrite H1, H2, H3. auto.
Qed.

(** C10: after a cursor event at [(mx, my)], [first_mouse] is false and the
    reference is [(mx, my)], whatever came before; the events after it that
    are not cursor events keep this so. *)
Theorem cursor_reference_invariant (sc : bool) (gs : GameState)
  (pre post : list WindowEvent) (mx my : R)
  (Hpost : forallb (fun ev => negb (is_cursor ev)) post = true) :
  let gs' := snd (handle_events sc gs (pre ++ CursorPos mx my :: post)) in
  first_mouse gs' = false /\ last_mouse_x gs' = mx /\ last_mouse_y gs' = my.
Proof.
  unfold handle_events. rewrite fold_left_app. cbn [fold_left].
  destruct (handle_events_non_cursor post
              (poll_event (fold_left poll_event pre (sc, gs)) (CursorPos mx my)) Hpost)
    as (H1 & H2 & H3).
  rewrite H1, H2, H3.
  destruct (fold_left poll_event pre (sc, gs)) as [sc0 gs0].
  unfold poll_event, handle_window_event; cbn.
  destruct gs0 as [u d l r [|] lx ly yw pt]; cbn; auto.
Qed.

Lemma cursor_reference_invariant_witness :
  forallb (fun ev => negb (is_cursor ev)) [KeyEvent KeyW 17 Press 0; Close] = true /\
  let gs' := snd (handle_events false GameState_new
                   ([CursorPos 1 2; KeyEvent KeyD 32 Press 0] ++
                    CursorPos 5 7 :: [KeyEvent KeyW 17 Press 0; Close])) in
  first_mouse gs' = false /\ last_mouse_x gs' = 5 /\ last_mouse_y gs' = 7.
Proof.
  split; [reflexivity|].
  exact (cursor_reference_invariant false GameState_new
           [CursorPos 1 2; KeyEvent KeyD 32 Press 0]
           [KeyEvent KeyW 17 Press 0; Close] 5 7 eq_refl).
Defined.

(** ** View direction *)

Lemma direction_length (yw ptch : R) : length (direction yw ptch) = 1.
Proof.
  unfold length, dot, direction; cbn.
  set (a := to_radians yw); set (b := to_radians ptch).
  replace (cos a * cos b * (cos a * cos b) + sin b * sin b + sin a * cos b * (sin a * cos b))
    with ((sin a * sin a + cos a * cos a) * (cos b * cos b) + sin b * sin b) by ring.
  rewrite <- !Rsqr_def, sin2_cos2, Rmult_1_l, Rplus_comm, sin2_cos2.
  apply sqrt_1.
Qed.

Lemma normalize_unit (v : Vec3) : length v = 1 -> normalize v = v.
Proof.
  intros H. unfold normalize, vscale. rewrite H.
  destruct v; cbn. f_equal; field.
Qed.

(** C5: the direction the loop derives from yaw and pitch (in degrees, as
    [to_radians] takes them) is the normalization of
    [(cos yaw * cos pitch, sin pitch, sin yaw * cos pitch)], and it has unit
    length; the spherical vector is already of unit length. *)
Theorem view_direction_unit (now : R) (evs : list WindowEvent) (p : Program) :
  let p' := frame now evs p in
  let gs := game_state p' in
  front (camera p') = normalize (direction (yaw gs) (pitch gs)) /\
  front (camera p') = direction (yaw gs) (pitch gs) /\
  length (front (camera p')) = 1.
Proof.
  unfold frame. destruct (handle_events _ _ _) as [sc gs]; cbn.
  rewrite (normalize_unit _ (direction_length _ _)).
  repeat split; auto using direction_length, normalize_unit.
Qed.

(** ** Loop termination *)

(** An escape-key press or a window-close request. *)
Definition close_request (ev : WindowEvent) : bool :=
  match ev with
  | KeyEvent Escape _ Press _ => true
  | Close => true
  | _ => false
  end.

Lemma handle_window_event_keeps_close (gs : GameState) (ev : WindowEvent) :
  fst (handle_window_event true gs ev) = true.
Proof.
  destruct ev as [k scode a mods | | | ]; cbn; auto.
  destruct k, a; reflexivity.
Qed.

Lemma poll_event_close (acc : bool * GameState) (ev : WindowEvent) :
  fst acc = true \/ close_request ev = true -> fst (poll_event acc ev) = true.
Proof.
  destruct acc as [sc gs]; cbn. intros [-> | H].
  - destruct ev; apply handle_window_event_keeps_close.
  - destruct ev as [k scode a mods | | | ]; try discriminate H.
    + destruct k; try discriminate H. destruct a; try discriminate H. reflexivity.
    + apply handle_window_event_keeps_close.
Qed.

Lemma fold_poll_close (evs : list WindowEvent) (acc : bool * GameState) :
  fst acc = true \/ existsb close_request evs = true ->
  fst (fold_left poll_event evs acc) = true.
Proof.
  revert acc; induction evs as [|ev evs IH]; intros acc H; cbn in *.
  - destruct H; [assumption | discriminate].
  - apply IH. destruct H as [H | H].
    + left. apply poll_event_close; auto.
    + apply orb_true_iff in H as [H | H]; [left; apply poll_event_close; auto | right; exact H].
Qed.

Lemma frame_should_close (now : R) (evs : list WindowEvent) (p : Program) :
  should_close (frame now evs p) = fst (handle_events (should_close p) (game_state p) evs).
Proof. unfold frame. destruct (handle_events _ _ _); reflexivity. Qed.

Lemma main_loop_closed (frames : list (R * list WindowEvent)) (p : Program) :
  should_close p = true -> main_loop frames p = p.
Proof. destruct frames as [|[now evs] rest]; cbn; intros H; [|rewrite H]; reflexivity. Qed.

(** C6: if the event batch of some iteration holds a close request (escape
    press or window close), the loop ends with that iteration: every later
    iteration, and so its render submission, is never run, and the window is
    left flagged to close. *)
Theorem loop_ends_after_close_request (pre post : list (R * list WindowEvent))
  (now : R) (evs : list WindowEvent) (p : Program)
  (Hclose : existsb close_request evs = true) :
  main_loop (pre ++ (now, evs) :: post) p = main_loop (pre ++ [(now, evs)]) p /\
  should_close (main_loop (pre ++ (now, evs) :: post) p) = true.
Proof.
  revert p; induction pre as [|[n e] pre IH]; intros p; cbn.
  - destruct (should_close p) eqn:Hs; [split; [reflexivity | exact Hs]|].
    assert (Hc : should_close (frame now evs p) = true).
    { rewrite frame_should_close. apply fold_poll_close. right; exact Hclose. }
    rewrite main_loop_closed by exact Hc. split; [reflexivity | exact Hc].
  - destruct (should_close p) eqn:Hs; [split; [reflexivity | exact Hs]|].
    apply IH.
Qed.

Lemma loop_ends_after_close_request_witness :
  existsb close_request [CursorPos 3 4; KeyEvent Escape 1 Press 0] = true /\
  let frames_pre := [(1, [KeyEvent KeyW 17 Press 0])] in
  let frames_post := [(3, []); (4, [])] in
  let p0 := init_program 1280 720 (mkMap []) in
  main_loop (frames_pre ++ (2, [CursorPos 3 4; KeyEvent Escape 1 Press 0]) :: frames_post) p0
    = main_loop (frames_pre ++ [(2, [CursorPos 3 4; KeyEvent Escape 1 Press 0])]) p0 /\
  should_close (main_loop (frames_pre ++ (2, [CursorPos 3 4; KeyEvent Escape 1 Press 0])
                           :: frames_post) p0) = true.
Proof.
  split; [reflexivity|].
  exact (loop_ends_after_close_request [(1, [KeyEvent KeyW 17 Press 0])] [(3, []); (4, [])]
           2 [CursorPos 3 4; KeyEvent Escape 1 Press 0] (init_program 1280 720 (mkMap []))
           eq_refl).
Defined.

(** ** The uniform block *)

Definition fixed_fields (w h : Z) (ub : UniformBuffer) : Prop :=
  projection_matrix ub = write_cols_to_slice (initial_projection w h) /\
  model_matrix ub = write_cols_to_slice initial_model.

Definition uniform_inv (w h : Z) (p : Program) : Prop :=
  fixed_fields w h (uniform_buffer p) /\
  Forall (fixed_fields w h) (List.map sub_uniform (submitted p)).

Lemma frame_uniform (now : R) (evs : list WindowEvent) (p : Program) :
  exists v, uniform_buffer (frame now evs p) = update_view (uniform_buffer p) v /\
            submitted (frame now evs p) =
              submitted p ++ [mkSubmission (uniform_buffer (frame now evs p))
                                 (List.map index_count (meshes (loaded_map p)))].
Proof. unfold frame. destruct (handle_events _ _ _). eexists; split; reflexivity. Qed.

Lemma frame_uniform_inv (w h : Z) (now : R) (evs : list WindowEvent) (p : Program) :
  uniform_inv w h p -> uniform_inv w h (frame now evs p).
Proof.
  intros [[Hp Hm] Hs].
  destruct (frame_uniform now evs p) as [v [Hu Hsub]].
  assert (Hf : fixed_fields w h (uniform_buffer (frame now evs p))).
  { rewrite Hu. split; assumption. }
  split; [exact Hf|].
  rewrite Hsub, map_app. apply Forall_app. split; [exact Hs|]. cbn. constructor; auto.
Qed.

Lemma main_loop_uniform_inv (w h : Z) (frames : list (R * list WindowEvent)) (p : Program) :
  uniform_inv w h p -> uniform_inv w h (main_loop frames p).
Proof.
  revert p; induction frames as [|[now evs] rest IH]; intros p H; cbn; [exact H|].
  destruct (should_close p); [exact H|]. apply IH, frame_uniform_inv, H.
Qed.

(** C8: whatever the frames, every uniform block the loop holds or submits
    keeps the projection built at startup (90 degree field of view, the
    window's aspect ratio, near 0.1, far 2000) and the model matrix
    [from_scale (1, 1, 1)]; each frame rewrites only the view matrix. *)
Theorem uniform_projection_model_fixed (w h : Z) (m : Map)
  (frames : list (R * list WindowEvent)) :
  let p := main_loop frames (init_program w h m) in
  Forall (fun ub =>
            projection_matrix ub =
              write_cols_to_slice (perspective_lh (to_radians 90) (IZR w / IZR h) (1 / 10) 2000) /\
            model_matrix ub = write_cols_to_slice (from_scale (mkVec3 1 1 1)))
         (uniform_buffer p :: List.map sub_uniform (submitted p)).
Proof.
  cbn zeta.
  destruct (main_loop_uniform_inv w h frames (init_program w h m)) as [H1 H2].
  - split; [split; reflexivity | constructor].
  - constructor; [exact H1 | exact H2].
Qed.

(** ** Forward movement *)

(** The state after one frame that turns the camera straight up: the
    first cursor sample latches (0, 0), the second raises pitch to 90. *)
Definition look_up_state : Program :=
  frame 1 [CursorPos 0 0; CursorPos 0 (-900)] (init_program 1280 720 (mkMap [])).

Lemma look_up_state_front : front (camera look_up_state) = mkVec3 0 1 0.
Proof.
  unfold look_up_state, frame; cbn -[normalize direction].
  rewrite (normalize_unit _ (direction_length _ _)).
  unfold direction.
  replace (to_radians (90 - (0 - 0) * SENSITIVITY - (0 - 0) * SENSITIVITY)) with (PI / 2)
    by (unfold to_radians, SENSITIVITY; field).
  replace (to_radians (0 + (0 - 0) * SENSITIVITY + (0 - -900) * SENSITIVITY)) with (PI / 2)
    by (unfold to_radians, SENSITIVITY; field).
  rewrite cos_PI2, sin_PI2. f_equal; ring.
Qed.

(** C2, as the spec words it: with the forward intent as the only active
    movement intent, the camera never moves vertically. It fails: the loop
    moves the camera along its full 3-D [front]. Once the camera looks
    straight up, pressing W lifts it by [CAMERA_SPEED * dt]. *)
Lemma forward_vertical_counterexample :
  ~ (forall (now : R) (evs : list WindowEvent) (p : Program),
       let p' := frame now evs p in
       up (game_state p') = true -> down (game_state p') = false ->
       left (game_state p') = false -> right (game_state p') = false ->
       y (pos (camera p')) = y (pos (camera p))).
Proof.
  intros H.
  specialize (H 2 [KeyEvent KeyW 17 Press 0] look_up_state eq_refl eq_refl eq_refl eq_refl).
  revert H. unfold frame at 1. cbn -[look_up_state].
  assert (Hd : down (game_state look_up_state) = false) by reflexivity.
  assert (Hl : left (game_state look_up_state) = false) by reflexivity.
  assert (Hr : right (game_state look_up_state) = false) by reflexivity.
  assert (Hp : past look_up_state = 1) by reflexivity.
  rewrite Hd, Hl, Hr, Hp. unfold move_camera; cbn -[look_up_state].
  rewrite look_up_state_front. cbn.
  unfold CAMERA_SPEED. intros H. lra.
Qed.

(** C2 (amended): with W as the only active movement intent, the camera
    position advances by [CAMERA_SPEED * front * dt], [front] being the full
    3-D direction of the previous iteration (vertical component included) and
    [dt = now - past]; there is no physics body. *)
Theorem forward_moves_along_front (now : R) (evs : list WindowEvent) (p : Program) :
  let p' := frame now evs p in
  up (game_state p') = true -> down (game_state p') = false ->
  left (game_state p') = false -> right (game_state p') = false ->
  pos (camera p') =
    vadd (pos (camera p)) (vmuls (vscale CAMERA_SPEED (front (camera p))) (now - past p)).
Proof.
  unfold frame. destruct (handle_events _ _ _) as [sc gs]; cbn.
  intros Hu Hd Hl Hr. unfold move_camera. rewrite Hu, Hd, Hl, Hr. reflexivity.
Qed.

Lemma forward_moves_along_front_witness :
  let p' := frame 2 [KeyEvent KeyW 17 Press 0] look_up_state in
  (up (game_state p') = true /\ down (game_state p') = false /\
   left (game_state p') = false /\ right (game_state p') = false) /\
  pos (camera p') =
    vadd (pos (camera look_up_state))
         (vmuls (vscale CAMERA_SPEED (front (camera look_up_state))) (2 - past look_up_state)).
Proof.
  split; [repeat split; reflexivity|].
  exact (forward_moves_along_front 2 [KeyEvent KeyW 17 Press 0] look_up_state
           eq_refl eq_refl eq_refl eq_refl).
Defined.

(** ** Map loading *)

(** The mesh built from a sector: each of its vertices and indices. *)
Definition mesh_of_sector_ok (s : MimeSector) (mesh : Mesh) : Prop :=
  mesh_vertex_buffer mesh = List.map vertex_of (vertex_buffer s) /\
  mesh_index_buffer mesh = index_buffer s /\
  index_count mesh = N.of_nat (List.length (index_buffer s)).

Lemma obind_returned {A B} (o : Outcome A) (k : A -> Outcome B) (b : B) :
  obind o k = Returned b -> exists a, o = Returned a /\ k a = Returned b.
Proof. destruct o; cbn; [eauto | discriminate]. Qed.

Lemma build_meshes_spec (ss : list MimeSector) (ms : list Mesh) :
  build_meshes ss = Returned ms -> Forall2 mesh_of_sector_ok ss ms.
Proof.
  revert ms; induction ss as [|s ss IH]; intros ms H; cbn in H.
  - injection H as <-. constructor.
  - apply obind_returned in H as [m [Hm H]].
    apply obind_returned in H as [ms' [Hms H]].
    injection H as <-.
    unfold Mesh_from_data in Hm.
    destruct (_ <? _)%N; [injection Hm as <- | discriminate].
    constructor; [repeat split | apply IH, Hms].
Qed.

(** C1 (amended): whenever [load_map] returns a map, the file was opened,
    read and deserialized to some [mime_map], and the map holds exactly one
    mesh per source sector, in order, each carrying that sector's vertices
    (position and color copied), its index buffer verbatim and its index
    count. *)
Theorem load_map_one_mesh_per_sector (Path File : Type)
  (File_open : Path -> option File) (read_to_end : File -> option (list Byte.byte))
  (deserialize : list Byte.byte -> option MimeMap) (filename : Path) (m : Map)
  (Hload : load_map Path File File_open read_to_end deserialize filename = Returned (Some m)) :
  exists file data mime_map,
    File_open filename = Some file /\ read_to_end file = Some data /\
    deserialize data = Some mime_map /\
    List.length (meshes m) = List.length (sectors mime_map) /\
    Forall2 mesh_of_sector_ok (sectors mime_map) (meshes m).
Proof.
  unfold load_map in Hload.
  destruct (File_open filename) as [file|] eqn:Ho; [|discriminate].
  destruct (read_to_end file) as [data|] eqn:Hr; [|discriminate].
  destruct (deserialize data) as [mime_map|] eqn:Hd; [|discriminate].
  destruct (nth_error (sectors mime_map) 38); [|discriminate].
  apply obind_returned in Hload as [ms [Hms H]]. injection H as <-.
  pose proof (build_meshes_spec (sectors mime_map) ms Hms) as HF.
  exists file, data, mime_map. repeat split; auto.
  cbn. symmetry. eapply Forall2_length; exact HF.
Qed.

(** A one-triangle sector and a sector with no geometry. *)
Definition sector_tri : MimeSector :=
  mkMimeSector [mkMimeVertex 0 0 0 (1, 0, 0); mkMimeVertex 1 0 0 (0, 1, 0);
                mkMimeVertex 0 1 0 (0, 0, 1)] [0; 1; 2]%N.
Definition sector_empty : MimeSector := mkMimeSector [] [].

Definition mesh_tri : Mesh :=
  mkMesh [mkVertex (0, 0, 0) (1, 0, 0); mkVertex (1, 0, 0) (0, 1, 0);
          mkVertex (0, 1, 0) (0, 0, 1)] [0; 1; 2]%N 3%N.

(** A file system holding one file, and a deserializer that yields [mm]. *)
Definition load_fixed (mm : MimeMap) : Outcome (option Map) :=
  load_map unit unit (fun _ => Some tt) (fun _ => Some []) (fun _ => Some mm) tt.

(** [load_map] reads [sectors[38]] before building the meshes: a map with
    fewer than 39 sectors makes it panic. *)
Example load_map_one_sector_panics : load_fixed (mkMimeMap [sector_tri]) = Panicked.
Proof. reflexivity. Qed.

Example load_map_39_sectors :
  load_fixed (mkMimeMap (repeat sector_tri 39)) = Returned (Some (mkMap (repeat mesh_tri 39))).
Proof. reflexivity. Qed.

Lemma load_map_one_mesh_per_sector_witness :
  load_fixed (mkMimeMap (repeat sector_tri 39)) = Returned (Some (mkMap (repeat mesh_tri 39))) /\
  exists file data mime_map,
    (fun _ : unit => Some tt) tt = Some file /\ (fun _ : unit => Some []) file = Some data /\
    (fun _ : list Byte.byte => Some (mkMimeMap (repeat sector_tri 39))) data = Some mime_map /\
    List.length (meshes (mkMap (repeat mesh_tri 39))) = List.length (sectors mime_map) /\
    Forall2 mesh_of_sector_ok (sectors mime_map) (meshes (mkMap (repeat mesh_tri 39))).
Proof.
  split; [reflexivity|].
  exact (load_map_one_mesh_per_sector unit unit (fun _ => Some tt) (fun _ => Some [])
           (fun _ => Some (mkMimeMap (repeat sector_tri 39))) tt
           (mkMap (repeat mesh_tri 39)) eq_refl).
Defined.

(** Every index of every sector names one of the sector's vertices. *)
Definition well_formed_mime_map (mm : MimeMap) : Prop :=
  Forall (fun s => Forall (fun i => (N.to_nat i < List.length (vertex_buffer s))%nat)
                          (index_buffer s))
         (sectors mm).

(** C1, as the spec words it: a well-formed map with N sectors loads to a map
    of N meshes, each of them non-empty. It fails: the meshes copy their
    sectors verbatim, so a sector without indices gives an empty mesh. *)
Lemma load_map_nonempty_counterexample :
  ~ (forall (mm : MimeMap), well_formed_mime_map mm ->
       exists m, load_fixed mm = Returned (Some m) /\
                 List.length (meshes m) = List.length (sectors mm) /\
                 Forall (fun mesh => (0 < index_count mesh)%N) (meshes m)).
Proof.
  intros H.
  destruct (H (mkMimeMap (repeat sector_empty 39))) as [m [Hl [_ Hne]]].
  - unfold well_formed_mime_map. cbn. repeat constructor.
  - assert (Hm : load_fixed (mkMimeMap (repeat sector_empty 39)) =
                 Returned (Some (mkMap (repeat (mkMesh [] [] 0%N) 39)))) by reflexivity.
    rewrite Hm in Hl. injection Hl as <-.
    cbn in Hne. inversion Hne as [|? ? Hlt _]; subst. discriminate Hlt.
Qed.

(** C7: when the file cannot be opened, cannot be read, or does not
    deserialize, [load_map] hands no map to its caller: it returns [None]
    or panics. *)
Theorem load_map_failure_no_map (Path File : Type)
  (File_open : Path -> option File) (read_to_end : File -> option (list Byte.byte))
  (deserialize : list Byte.byte -> option MimeMap) (filename : Path)
  (Hfail : File_open filename = None \/
           (exists file, File_open filename = Some file /\ read_to_end file = None) \/
           (exists file data, File_open filename = Some file /\ read_to_end file = Some data /\
                              deserialize data = None)) :
  forall m : Map,
    load_map Path File File_open read_to_end deserialize filename <> Returned (Some m).
Proof.
  intros m. unfold load_map.
  destruct Hfail as [Ho | [[file [Ho Hr]] | [file [data [Ho [Hr Hd]]]]]]; rewrite Ho.
  - discriminate.
  - rewrite Hr. discriminate.
  - rewrite Hr, Hd. discriminate.
Qed.

Lemma load_map_failure_no_map_witness :
  ((fun _ : unit => Some tt) tt = None \/
   (exists file, (fun _ : unit => Some tt) tt = Some file /\
                 (fun _ : unit => Some (@nil Byte.byte)) file = None) \/
   (exists file data, (fun _ : unit => Some tt) tt = Some file /\
                      (fun _ : unit => Some (@nil Byte.byte)) file = Some data /\
                      (fun _ : list Byte.byte => @None MimeMap) data = None)) /\
  forall m : Map,
    load_map unit unit (fun _ => Some tt) (fun _ => Some []) (fun _ => None) tt
      <> Returned (Some m).
Proof.
  assert (H : (fun _ : unit => Some tt) tt = None \/
   (exists file, (fun _ : unit => Some tt) tt = Some file /\
                 (fun _ : unit => Some (@nil Byte.byte)) file = None) \/
   (exists file data, (fun _ : unit => Some tt) tt = Some file /\
                      (fun _ : unit => Some (@nil Byte.byte)) file = Some data /\
                      (fun _ : list Byte.byte => @None MimeMap) data = None)).
  { right; right. exists tt, []. repeat split. }
  split; [exact H|].
  exact (load_map_failure_no_map unit unit (fun _ => Some tt) (fun _ => Some [])
           (fun _ => None) tt H).
Defined.

(** * Further properties of [main.rs] *)

(** ** Mouse look composes *)





(** Pitch is not clamped: from any latched state one cursor sample brings it
    to any value, yaw unchanged. *)
Theorem pitch_unclamped (gs : GameState) (target : R) (Hfirst : first_mouse gs = false) :
  let my := last_mouse_y gs - (target - pitch gs) / SENSITIVITY in
  pitch (after gs (CursorPos (last_mouse_x gs) my)) = target /\
  yaw (after gs (CursorPos (last_mouse_x gs) my)) = yaw gs.
Proof.
  destruct gs as [u d l r fm lx ly yw pt]; cbn in Hfirst; subst fm.
  unfold after; cbn. unfold SENSITIVITY. split; field.
Qed.

Lemma pitch_unclamped_witness :
  first_mouse (mkGameState false false false false false 0 0 90 0) = false /\
  let gs := mkGameState false false false false false 0 0 90 0 in
  let my := last_mouse_y gs - (270 - pitch gs) / SENSITIVITY in
  pitch (after gs (CursorPos (last_mouse_x gs) my)) = 270 /\
  yaw (after gs (CursorPos (last_mouse_x gs) my)) = yaw gs.
Proof.
  split; [reflexivity|].
  exact (pitch_unclamped (mkGameState false false false false false 0 0 90 0) 270 eq_refl).
Defined.

(** ** Events that change nothing *)

(** The events [handle_window_event] acts on: an escape press, a press or
    release of W, S, A or D, and a cursor move. *)
Definition handled_event (ev : WindowEvent) : bool :=
  match ev with
  | KeyEvent Escape _ Press _ => true
  | KeyEvent k _ Press _ | KeyEvent k _ Release _ => is_movement_key k
  | CursorPos _ _ => true
  | _ => false
  end.

(** Every other event (a key repeat, an escape release, any other key, a
    close or any other window event) leaves the should-close flag and the
    game state as they were. *)
Theorem unhandled_event_no_effect (sc : bool) (gs : GameState) (ev : WindowEvent)
  (Hev : handled_event ev = false) :
  handle_window_event sc gs ev = (sc, gs).
Proof.
  destruct ev as [k scode a mods | | | ]; try discriminate Hev; try reflexivity.
  destruct k, a; try discriminate Hev; reflexivity.
Qed.

Lemma unhandled_event_no_effect_witness :
  handled_event (KeyEvent KeyW 17 Repeat 0) = false /\
  handle_window_event false GameState_new (KeyEvent KeyW 17 Repeat 0) = (false, GameState_new).
Proof.
  split; [reflexivity|].
  exact (unhandled_event_no_effect false GameState_new (KeyEvent KeyW 17 Repeat 0) eq_refl).
Defined.

(** ** Camera movement *)





Lemma frame_cam_up (now : R) (evs : list WindowEvent) (p : Program) :
  cam_up (camera (frame now evs p)) = cam_up (camera p).
Proof.
  unfold frame. destruct (handle_events _ _ _) as [sc gs]. cbn.
  unfold move_camera. destruct (up gs), (down gs), (right gs), (left gs); reflexivity.
Qed.

(** The camera's up vector is the world up [(0, 1, 0)] set by
    [Camera3D::new] on every iteration of the loop: nothing rotates it. *)
Theorem camera_up_fixed (w h : Z) (m : Map) (frames : list (R * list WindowEvent)) :
  cam_up (camera (main_loop frames (init_program w h m))) = mkVec3 0 1 0.
Proof.
  assert (H : forall p, cam_up (camera p) = mkVec3 0 1 0 ->
                        cam_up (camera (main_loop frames p)) = mkVec3 0 1 0).
  { induction frames as [|[now evs] rest IH]; intros p Hp; cbn; [exact Hp|].
    destruct (should_close p); [exact Hp|]. apply IH. rewrite frame_cam_up. exact Hp. }
  apply H. reflexivity.
Qed.



(** ** The frame loop's submissions *)






(** ** The view matrix *)








(** ** [Mesh::from_data] *)

(** [Mesh::from_data] panics exactly when the index buffer holds [2^32] or
    more indices (the [u32] conversion of its length fails); otherwise the
    mesh keeps both buffers and counts every index. *)
Theorem mesh_from_data_bounds (vb : list Vertex) (ib : list N) :
  (Mesh_from_data vb ib = Panicked <-> (2 ^ 32 <= N.of_nat (List.length ib))%N) /\
  ((N.of_nat (List.length ib) < 2 ^ 32)%N ->
   Mesh_from_data vb ib = Returned (mkMesh vb ib (N.of_nat (List.length ib)))).
Proof.
  unfold Mesh_from_data.
  destruct (N.ltb_spec (N.of_nat (List.length ib)) (2 ^ 32)) as [H | H].
  - split; [split; [discriminate | intros H'; lia] | reflexivity].
  - split; [split; [intros _; exact H | reflexivity] | intros H'; lia].
Qed.

(** ** [load_map]'s outcomes *)

(** [load_map] returns [None] exactly when the file cannot be opened or
    read: its [Option] result carries only those two failures. *)
Theorem load_map_none_iff (Path File : Type)
  (File_open : Path -> option File) (read_to_end : File -> option (list Byte.byte))
  (deserialize : list Byte.byte -> option MimeMap) (filename : Path) :
  load_map Path File File_open read_to_end deserialize filename = Returned None <->
  File_open filename = None \/
  exists file, File_open filename = Some file /\ read_to_end file = None.
Proof.
  unfold load_map. split.
  - destruct (File_open filename) as [file|]; [|auto].
    destruct (read_to_end file) as [data|] eqn:Hr; [|eauto].
    destruct (deserialize data); [|discriminate].
    destruct (nth_error _ 38); [|discriminate].
    intros H. apply obind_returned in H as [ms [_ H]]. discriminate H.
  - intros [-> | [file [-> ->]]]; reflexivity.
Qed.

(** Once the file has been read, a map that does not deserialize, or one
    with fewer than 39 sectors (the stray [sectors[38]]), makes [load_map]
    panic. *)
Theorem load_map_panics (Path File : Type)
  (File_open : Path -> option File) (read_to_end : File -> option (list Byte.byte))
  (deserialize : list Byte.byte -> option MimeMap) (filename : Path) (file : File)
  (data : list Byte.byte)
  (Ho : File_open filename = Some file) (Hr : read_to_end file = Some data)
  (Hbad : deserialize data = None \/
          exists mm, deserialize data = Some mm /\ (List.length (sectors mm) <= 38)%nat) :
  load_map Path File File_open read_to_end deserialize filename = Panicked.
Proof.
  unfold load_map. rewrite Ho, Hr.
  destruct Hbad as [-> | [mm [-> Hl]]]; [reflexivity|].
  rewrite (proj2 (nth_error_None (sectors mm) 38)) by lia. reflexivity.
Qed.

Lemma load_map_panics_witness :
  ((fun _ : unit => Some tt) tt = Some tt /\
   (fun _ : unit => Some (@nil Byte.byte)) tt = Some [] /\
   ((fun _ : list Byte.byte => Some (mkMimeMap [sector_tri])) [] = None \/
    exists mm, (fun _ : list Byte.byte => Some (mkMimeMap [sector_tri])) [] = Some mm /\
               (List.length (sectors mm) <= 38)%nat)) /\
  load_fixed (mkMimeMap [sector_tri]) = Panicked.
Proof.
  assert (Hbad : (fun _ : list Byte.byte => Some (mkMimeMap [sector_tri])) [] = None \/
    exists mm, (fun _ : list Byte.byte => Some (mkMimeMap [sector_tri])) [] = Some mm /\
               (List.length (sectors mm) <= 38)%nat).
  { right. exists (mkMimeMap [sector_tri]). split; [reflexivity | cbn; lia]. }
  split; [split; [reflexivity | split; [reflexivity | exact Hbad]]|].
  exact (load_map_panics unit unit (fun _ => Some tt) (fun _ => Some [])
           (fun _ => Some (mkMimeMap [sector_tri])) tt tt [] eq_refl eq_refl Hbad).
Defined.

Lemma build_meshes_total (ss : list MimeSector) :
  Forall (fun s => (N.of_nat (List.length (index_buffer s)) < 2 ^ 32)%N) ss ->
  exists ms, build_meshes ss = Returned ms.
Proof.
  induction ss as [|s ss IH]; intros H; [eexists; reflexivity|].
  inversion H as [|? ? Hs Hss]; subst.
  destruct (IH Hss) as [ms Hms].
  exists (mkMesh (List.map vertex_of (vertex_buffer s)) (index_buffer s)
            (N.of_nat (List.length (index_buffer s))) :: ms).
  cbn. rewrite (proj2 (mesh_from_data_bounds _ _) Hs). cbn. rewrite Hms. reflexivity.
Qed.

(** [load_map] returns a map whenever the file opens, reads and
    deserializes to at least 39 sectors whose index buffers each fit a
    [u32] count. *)
Theorem load_map_succeeds (Path File : Type)
  (File_open : Path -> option File) (read_to_end : File -> option (list Byte.byte))
  (deserialize : list Byte.byte -> option MimeMap) (filename : Path) (file : File)
  (data : list Byte.byte) (mm : MimeMap)
  (Ho : File_open filename = Some file) (Hr : read_to_end file = Some data)
  (Hd : deserialize data = Some mm) (H39 : (39 <= List.length (sectors mm))%nat)
  (Hsmall : Forall (fun s => (N.of_nat (List.length (index_buffer s)) < 2 ^ 32)%N)
                   (sectors mm)) :
  exists m, load_map Path File File_open read_to_end deserialize filename = Returned (Some m).
Proof.
  unfold load_map. rewrite Ho, Hr, Hd.
  destruct (nth_error (sectors mm) 38) eqn:E.
  - destruct (build_meshes_total _ Hsmall) as [ms Hms]. rewrite Hms. eexists; reflexivity.
  - apply nth_error_None in E. lia.
Qed.

Lemma load_map_succeeds_witness :
  ((fun _ : unit => Some tt) tt = Some tt /\
   (fun _ : unit => Some (@nil Byte.byte)) tt = Some [] /\
   (fun _ : list Byte.byte => Some (mkMimeMap (repeat sector_tri 39))) [] =
     Some (mkMimeMap (repeat sector_tri 39)) /\
   (39 <= List.length (sectors (mkMimeMap (repeat sector_tri 39))))%nat /\
   Forall (fun s => (N.of_nat (List.length (index_buffer s)) < 2 ^ 32)%N)
          (sectors (mkMimeMap (repeat sector_tri 39)))) /\
  exists m, load_fixed (mkMimeMap (repeat sector_tri 39)) = Returned (Some m).
Proof.
  assert (H39 : (39 <= List.length (sectors (mkMimeMap (repeat sector_tri 39))))%nat)
    by (cbn; lia).
  assert (Hsmall : Forall (fun s => (N.of_nat (List.length (index_buffer s)) < 2 ^ 32)%N)
                          (sectors (mkMimeMap (repeat sector_tri 39)))).
  { apply Forall_forall. intros s Hin. apply repeat_spec in Hin. subst s.
    cbn. lia. }
  split; [repeat split; [exact H39 | exact Hsmall]|].
  exact (load_map_succeeds unit unit (fun _ => Some tt) (fun _ => Some [])
           (fun _ => Some (mkMimeMap (repeat sector_tri 39))) tt tt [] _
           eq_refl eq_refl eq_refl H39 Hsmall).
Defined.
